(** * Slipring Sword: the frame loop of WPLSwordPuzzle..c

    A shallow embedding of the sketch's [drawLightbar] and [loop], and the
    properties of the position counter, the light-bar renderer, the
    edge-triggered sound effect and the brightness fade. *)

From Stdlib Require Import ZArith Lia Bool List String.
From Stdlib Require Import Floats.SpecFloat.
From stdpp Require Import base option list list_numbers.
Import ListNotations.
Local Open Scope Z_scope.

(** ** Machine arithmetic *)

(** [int] on the AVR target is a 16-bit two's complement integer. *)
Definition INT_MAX : Z := 32767.
Definition INT_MIN : Z := -32768.

Definition wrap16 (z : Z) : Z := (z + 32768) mod 65536 - 32768.

(** Conversion to [uint8_t] / [byte]. *)
Definition to_u8 (z : Z) : Z := z mod 256.

(** [float] is IEEE-754 binary32: 24 bits of precision, emax 128. *)
Definition f32_prec : Z := 24.
Definition f32_emax : Z := 128.

(** int -> float conversion (exact below 2^24). *)
Definition float_of_int (z : Z) : spec_float :=
  binary_normalize f32_prec f32_emax z 0 false.

(** float -> int conversion: truncation toward zero.  Infinities and NaN do
    not arise from a 16-bit integer times 0.8f; they are mapped to 0. *)
Definition int_of_float (f : spec_float) : Z :=
  match f with
  | S754_finite sg m e =>
      cond_Zopp sg (if 0 <=? e then Z.pos m * 2 ^ e else Z.pos m / 2 ^ (- e))
  | _ => 0
  end.

(** The literal [0.8f]: 13421773 * 2^-24, the binary32 nearest to 4/5. *)
Definition f0_8 : spec_float := S754_finite false 13421773 (-24).

(** [brightness *= 0.8f] on an [int] left operand:
    (int)((float)brightness * 0.8f). *)
Definition mul_0_8f (brightness : Z) : Z :=
  int_of_float (SFmul f32_prec f32_emax (float_of_int brightness) f0_8).

(** The idle branch of [loop]: [brightness *= 0.8f; if(brightness<0)
    { brightness = 0; }]. *)
Definition fade (brightness : Z) : Z :=
  let b := wrap16 (mul_0_8f brightness) in
  if b <? 0 then 0 else b.

(** ** Constants of the sketch *)

Definition NUM_LEDS : Z := 12.
Definition numSensors : nat := 6.
Definition sensorPins : list Z := [2; 3; 4; 5; 6; 7].
Definition hues : list Z := [0; 24; 50; 90; 120; 160].
Definition lengths : list Z := [2; 3; 4; 5; 6; 7].

Definition LOW : Z := 0.
Definition HIGH : Z := 1.

(** ** Pixel types (FastLED) *)

Record CHSV : Type := mkCHSV { hsv_h : Z; hsv_s : Z; hsv_v : Z }.
Record CRGB : Type := mkCRGB { red : Z; green : Z; blue : Z }.

Definition black : CRGB := mkCRGB 0 0 0.

(** Saturating 8-bit addition, and [CRGB::operator+=]. *)
Definition qadd8 (a b : Z) : Z := Z.min 255 (a + b).

Definition crgb_add (x y : CRGB) : CRGB :=
  mkCRGB (qadd8 (red x) (red y)) (qadd8 (green x) (green y))
         (qadd8 (blue x) (blue y)).

(** ** drawLightbar *)

(** One executed statement [leds[i] += CHSV(hue, 255, bright)]. *)
Definition led_write : Type := Z * CHSV.

(** The [for(int n=0; n<=length; n++)] loop, from the iteration with counter
    [n] and strip index [i] on.  The result is the sequence of [leds[i] += ...]
    statements executed; [None] when an index falls outside [leds] or the fuel
    is exhausted.  [drawLightbar] supplies one unit of fuel per test of the
    loop condition, length + 2 of them when [n] does not overflow. *)
Fixpoint drawLightbar_for (fuel : nat)
    (length hue firstpixelbrightness lastpixelbrightness n i : Z)
    : option (list led_write) :=
  match fuel with
  | O => None
  | S fuel' =>
      if n <=? length then
        let bright :=
          if n =? 0 then firstpixelbrightness
          else if n =? length then lastpixelbrightness
          else 255 in
        if (0 <=? i) && (i <? NUM_LEDS) then
          let i1 := wrap16 (i + 1) in
          let i2 := if i1 =? NUM_LEDS then 0 else i1 in
          rest ← drawLightbar_for fuel' length hue firstpixelbrightness
                   lastpixelbrightness (wrap16 (n + 1)) i2;
          Some ((i, mkCHSV (to_u8 hue) 255 (to_u8 bright)) :: rest)
        else None
      else Some []
  end.

Definition drawLightbar (pos16 length hue : Z) : option (list led_write) :=
  let i := Z.quot pos16 16 in
  let frac := Z.land pos16 15 in
  let firstpixelbrightness := 255 - frac * 16 in
  let lastpixelbrightness := 255 - firstpixelbrightness in
  drawLightbar_for (S (Z.to_nat (length + 1))) length hue
    firstpixelbrightness lastpixelbrightness 0 i.

(** Sum of the brightness (value) components of a sequence of writes. *)
Definition total_brightness (ws : list led_write) : Z :=
  foldr (λ w acc, hsv_v w.2 + acc) 0 ws.

(** ** The frame loop *)

Record State : Type := mkState {
  pos16 : Z;
  delta16 : Z;
  hue : Z;
  brightness : Z;
  length : Z;
  wasOverSensor : bool;
  leds : list CRGB
}.

(** Globals as initialised at power-on. *)
Definition initial : State :=
  mkState 0 1 20 0 1 false (replicate (Z.to_nat NUM_LEDS) black).

(** Calls made to the MP3 player, the LED driver and the timer. *)
Inductive event : Type :=
  | PlayTrack (track : Z)
  | SetBrightness (scale : Z)
  | Show (pixels : list CRGB)
  | Delay (ms : Z).

(** The sensor scan [for(int i=0; i<numSensors; i++)]: the running values of
    [length], [hue] and [isOverSensor]. *)
Definition scan_step (digitalRead : Z → Z) (acc : Z * Z * bool) (i : nat)
    : Z * Z * bool :=
  if digitalRead (nth i sensorPins 0) =? LOW
  then (nth i lengths 0, nth i hues 0, true)
  else acc.

Definition scan (digitalRead : Z → Z) (length hue : Z) : Z * Z * bool :=
  fold_left (scan_step digitalRead) (seq 0 numSensors) (length, hue, false).

Section Frame.

(** FastLED's HSV to RGB conversion, used by [CRGB += CHSV]. *)
Variable hsv2rgb_rainbow : CHSV → CRGB.

(** Effect of the executed [leds[i] += c] statements on the pixel array. *)
Definition paint (ws : list led_write) (px : list CRGB) : list CRGB :=
  fold_left
    (λ px w, alter (λ p, crgb_add p (hsv2rgb_rainbow w.2)) (Z.to_nat w.1) px)
    ws px.

(** One pass through [loop()], given this frame's pin levels. *)
Definition loop (digitalRead : Z → Z) (st : State)
    : option (State * list event) :=
  let '(length1, hue1, isOverSensor) :=
    scan digitalRead (length st) (hue st) in
  let rising := isOverSensor && negb (wasOverSensor st) in
  let pos1 := if rising then 0 else pos16 st in
  let cue := if rising then [PlayTrack 1] else [] in
  let brightness1 := if isOverSensor then 255 else fade (brightness st) in
  ws ← drawLightbar pos1 length1 hue1;
  let leds1 := paint ws (replicate (Z.to_nat NUM_LEDS) black) in
  let pos2 := wrap16 (pos1 + delta16 st) in
  let pos3 :=
    if pos2 >=? NUM_LEDS * 16 then wrap16 (pos2 - NUM_LEDS * 16) else pos2 in
  Some (mkState pos3 (delta16 st) hue1 brightness1 length1 isOverSensor leds1,
        cue ++ [SetBrightness (to_u8 brightness1); Show leds1; Delay 10]).

(** Consecutive frames, one pin-level reading per frame. *)
Fixpoint run (reads : list (Z → Z)) (st : State)
    : option (State * list event) :=
  match reads with
  | [] => Some (st, [])
  | rd :: reads' =>
      '(st1, ev1) ← loop rd st;
      '(st2, ev2) ← run reads' st1;
      Some (st2, ev1 ++ ev2)
  end.

(** States the device can be in between frames. *)
Inductive reachable : State → Prop :=
  | reachable_initial : reachable initial
  | reachable_frame st rd st' evs :
      reachable st → loop rd st = Some (st', evs) → reachable st'.

End Frame.

(** * Specification-side definitions *)

(** ** The bar as section 4.3 of the specification describes it *)

Definition slot_bright (pos16 length k : Z) : Z :=
  if k =? 0 then 255 - (pos16 mod 16) * 16
  else if k =? length then 255 - (255 - (pos16 mod 16) * 16)
  else 255.

Definition bar_slot (pos16 length hue k : Z) : led_write :=
  ((pos16 / 16 + k) mod NUM_LEDS,
   mkCHSV (to_u8 hue) 255 (slot_bright pos16 length k)).

(** ** The brightness fade *)

(** The fade on integers: four fifths, rounded down. *)
Definition fade_step (b : Z) : Z := b * 4 / 5.

(** The closed form of the specification's scenario D:
    floor(255 * 0.8^n), computed exactly as floor(255 * 4^n / 5^n). *)
Definition closed_form_fade (n : nat) : Z := 255 * 4 ^ Z.of_nat n / 5 ^ Z.of_nat n.

(** ** The sensor scan *)

(** Some sensor reads asserted (active low). *)
Definition anySensor (digitalRead : Z → Z) : bool :=
  existsb (λ pin, digitalRead pin =? LOW) sensorPins.
Global Arguments anySensor : simpl never.

(** ** One frame *)

(** What a frame needs of the state it starts from. *)
Definition frame_ready (st : State) : Prop :=
  0 ≤ pos16 st < NUM_LEDS * 16 ∧ delta16 st = 1 ∧ length st < INT_MAX.

(** A rising edge: a sensor is asserted and none was on the previous frame. *)
Definition rising (digitalRead : Z → Z) (st : State) : bool :=
  anySensor digitalRead && negb (wasOverSensor st).

(** Calls to [mp3.playTrack] among the events of a run. *)
Definition is_playTrack (e : event) : bool :=
  match e with PlayTrack _ => true | _ => false end.

Definition playTrack_calls (evs : list event) : nat :=
  List.length (List.filter is_playTrack evs).

(** False-to-true transitions of a sequence of samples that follows [prev]. *)
Fixpoint rising_edges (prev : bool) (samples : list bool) : nat :=
  match samples with
  | [] => 0
  | a :: rest => ((if a && negb prev then 1 else 0) + rising_edges a rest)%nat
  end.

(** ** Concrete inputs *)

(** A stand-in for FastLED's conversion: grey of the same value. *)
Definition hsv2rgb_grey (c : CHSV) : CRGB :=
  mkCRGB (hsv_v c) (hsv_v c) (hsv_v c).

(** Pin levels with no sensor asserted, with sensor [i] asserted, and with
    sensors [i] and [j] asserted. *)
Definition released : Z → Z := λ _, HIGH.

Definition pressed (i : nat) : Z → Z :=
  λ pin, if pin =? nth i sensorPins 0 then LOW else HIGH.

Definition pressed2 (i j : nat) : Z → Z :=
  λ pin,
    if (pin =? nth i sensorPins 0) || (pin =? nth j sensorPins 0)
    then LOW else HIGH.

(** The state one frame after power-on when sensor 3 is asserted. *)
Definition lit : State :=
  Eval vm_compute in
    match loop hsv2rgb_grey (pressed 3) initial with
    | Some (st, _) => st
    | None => initial
    end.

(** * setup *)

Inductive pin_mode : Type := INPUT | OUTPUT | INPUT_PULLUP.

(** The template arguments of [FastLED.addLeds] the sketch uses. *)
Inductive chipset : Type := WS2812B.
Inductive rgb_order : Type := GRB.

(** Calls [setup()] makes on the serial port, the LED driver, the pins and
    the MP3 player. *)
Inductive setup_call : Type :=
  | SerialBegin (baud : Z)
  | SerialPrintln (text : string)
  | AddLeds (chip : chipset) (dataPin : Z) (order : rgb_order) (count : Z)
  | FastLEDSetBrightness (scale : Z)
  | PinMode (pin : Z) (mode : pin_mode)
  | AltSerialBegin (baud : Z)
  | Mp3Begin
  | Mp3SetSynchronous (synchronous : bool)
  | Mp3Volume (volume : Z).

(** [setup()], given the build banner [__FILE__ __DATE__] and the board's pin
    number for [A5]. *)
Definition setup (banner : string) (ledDataPin : Z) : list setup_call :=
  [SerialBegin 115200; SerialPrintln banner;
   AddLeds WS2812B ledDataPin GRB NUM_LEDS; FastLEDSetBrightness 128]
  ++ map (λ i, PinMode (nth i sensorPins 0) INPUT_PULLUP) (seq 0 numSensors)
  ++ [AltSerialBegin 9600; Mp3Begin; Mp3SetSynchronous true; Mp3Volume 30].

(** * Observations on the calls of a run *)

Definition is_show (e : event) : bool :=
  match e with Show _ => true | _ => false end.

Definition is_delay (e : event) : bool :=
  match e with Delay _ => true | _ => false end.

(** The arguments of the [FastLED.setBrightness] calls, in order. *)
Definition setBrightness_args (evs : list event) : list Z :=
  flat_map (λ e, match e with SetBrightness b => [b] | _ => [] end) evs.

(** The total of the [delay] calls, in milliseconds. *)
Definition total_delay (evs : list event) : Z :=
  foldr (λ e acc, match e with Delay ms => ms + acc | _ => acc end) 0 evs.

(** The pixel array after [memset8]. *)
Definition cleared : list CRGB := replicate (Z.to_nat NUM_LEDS) black.

(** * Proofs *)

(** ** Machine arithmetic *)

(** The literal 0.8f is 4/5 correctly rounded to binary32. *)
Lemma f0_8_nearest :
  SFdiv f32_prec f32_emax (float_of_int 4) (float_of_int 5) = f0_8.
Proof. vm_compute. reflexivity. Qed.

Lemma wrap16_id z : INT_MIN ≤ z ≤ INT_MAX → wrap16 z = z.
Proof.
  unfold wrap16, INT_MIN, INT_MAX. intros Hz.
  rewrite Z.mod_small; lia.
Qed.

Lemma to_u8_id z : 0 ≤ z ≤ 255 → to_u8 z = z.
Proof. unfold to_u8. intros Hz. apply Z.mod_small. lia. Qed.

Lemma next_index i0 n :
  0 ≤ i0 → 0 ≤ n →
  (if wrap16 ((i0 + n) mod NUM_LEDS + 1) =? NUM_LEDS then 0
   else wrap16 ((i0 + n) mod NUM_LEDS + 1)) = (i0 + (n + 1)) mod NUM_LEDS.
Proof.
  unfold NUM_LEDS. intros Hi Hn.
  pose proof (Z.mod_pos_bound (i0 + n) 12 eq_refl) as Hm.
  rewrite wrap16_id by (unfold INT_MIN, INT_MAX; lia).
  destruct (Z.eqb_spec ((i0 + n) mod 12 + 1) 12);
    Z.to_euclidean_division_equations; lia.
Qed.

(** ** drawLightbar *)

Lemma drawLightbar_for_slots fuel length hue first last i0 :
  length < INT_MAX → 0 ≤ first ≤ 255 → 0 ≤ last ≤ 255 → 0 ≤ i0 →
  ∀ n, 0 ≤ n → (S (Z.to_nat (length + 1 - n)) ≤ fuel)%nat →
  drawLightbar_for fuel length hue first last n ((i0 + n) mod NUM_LEDS)
  = Some ((λ k, ((i0 + k) mod NUM_LEDS,
                 mkCHSV (to_u8 hue) 255
                   (if k =? 0 then first
                    else if k =? length then last else 255)))
          <$> seqZ n (length + 1 - n)).
Proof.
  intros Hlen Hfirst Hlast Hi0.
  induction fuel as [|fuel IH]; intros n Hn Hfuel; [lia|].
  cbn [drawLightbar_for].
  destruct (Z.leb_spec n length) as [Hle|Hgt].
  - assert (Hidx : 0 ≤ (i0 + n) mod NUM_LEDS < NUM_LEDS)
      by (apply Z.mod_pos_bound; reflexivity).
    destruct (Z.leb_spec 0 ((i0 + n) mod NUM_LEDS)); [|lia].
    destruct (Z.ltb_spec ((i0 + n) mod NUM_LEDS) NUM_LEDS); [|lia].
    cbn [andb].
    rewrite next_index by lia.
    rewrite (wrap16_id (n + 1)) by (unfold INT_MIN, INT_MAX in *; lia).
    rewrite IH by lia. cbn.
    rewrite (seqZ_cons n) by lia. cbn.
    replace (Z.pred (length + 1 - n)) with (length + 1 - (n + 1)) by lia.
    replace (Z.succ n) with (n + 1) by lia.
    rewrite (to_u8_id (if n =? 0 then _ else _)); [reflexivity|].
    destruct (n =? 0); [lia|]. destruct (n =? length); lia.
  - rewrite seqZ_nil by lia. reflexivity.
Qed.

(** Fuel beyond what a run needs does not change its result. *)
Lemma drawLightbar_for_more_fuel length hue first last :
  ∀ fuel fuel' n i ws,
    drawLightbar_for fuel length hue first last n i = Some ws →
    (fuel ≤ fuel')%nat →
    drawLightbar_for fuel' length hue first last n i = Some ws.
Proof.
  induction fuel as [|fuel IH]; intros fuel' n i ws Hrun Hle; [discriminate|].
  destruct fuel' as [|fuel']; [lia|].
  cbn [drawLightbar_for] in *.
  destruct (n <=? length); [|exact Hrun].
  destruct ((0 <=? i) && (i <? NUM_LEDS)); [|discriminate].
  destruct (drawLightbar_for fuel _ _ _ _ _ _) as [rest|] eqn:Hrest;
    [|discriminate].
  rewrite (IH fuel' _ _ rest Hrest) by lia. exact Hrun.
Qed.

Lemma land_15 z : Z.land z 15 = z mod 16.
Proof. change 15 with (Z.ones 4). rewrite Z.land_ones by lia. reflexivity. Qed.

Lemma drawLightbar_slots pos16 length hue :
  0 ≤ pos16 < NUM_LEDS * 16 → length < INT_MAX →
  drawLightbar pos16 length hue
  = Some (bar_slot pos16 length hue <$> seqZ 0 (length + 1)).
Proof.
  unfold NUM_LEDS. intros Hpos Hlen. unfold drawLightbar.
  rewrite land_15, Z.quot_div_nonneg by lia.
  assert (Hq : 0 ≤ pos16 / 16 < 12)
    by (Z.to_euclidean_division_equations; lia).
  assert (Hm : 0 ≤ pos16 mod 16 < 16) by (apply Z.mod_pos_bound; lia).
  replace (pos16 / 16) with ((pos16 / 16 + 0) mod NUM_LEDS) at 1
    by (unfold NUM_LEDS; rewrite Z.add_0_r; apply Z.mod_small; lia).
  rewrite drawLightbar_for_slots by lia.
  replace (length + 1 - 0) with (length + 1) by lia.
  reflexivity.
Qed.
(** ** The brightness fade *)

Lemma forallb_seqZ (P : Z → bool) lo n :
  forallb P (seqZ lo n) = true → ∀ z, lo ≤ z < lo + n → P z = true.
Proof.
  intros Hall z Hz. rewrite forallb_forall in Hall. apply Hall.
  apply list_elem_of_In, elem_of_seqZ. exact Hz.
Qed.

(** On every brightness value the float product, rounded to binary32 and
    truncated, is exactly four fifths rounded down. *)
Lemma mul_0_8f_exact b : 0 ≤ b ≤ 255 → mul_0_8f b = fade_step b.
Proof.
  intros Hb. apply Z.eqb_eq.
  apply (forallb_seqZ (λ z, mul_0_8f z =? fade_step z) 0 256); [|lia].
  vm_compute. reflexivity.
Qed.

(** The same holds of the unrounded product b * 13421773 / 2^24, so the
    result does not depend on how the product is rounded to binary32. *)
Lemma mul_0_8f_unrounded b :
  0 ≤ b ≤ 255 → mul_0_8f b = b * 13421773 / 2 ^ 24.
Proof.
  intros Hb. apply Z.eqb_eq.
  apply (forallb_seqZ (λ z, mul_0_8f z =? z * 13421773 / 2 ^ 24) 0 256);
    [|lia].
  vm_compute. reflexivity.
Qed.

Lemma fade_step_bounds b : 0 ≤ b → 0 ≤ fade_step b ≤ b.
Proof.
  unfold fade_step. intros Hb. Z.to_euclidean_division_equations. lia.
Qed.

Lemma fade_step_mono a b : a ≤ b → fade_step a ≤ fade_step b.
Proof. unfold fade_step. intros Hab. apply Z.div_le_mono; lia. Qed.

Lemma iter_fade_bounds n b : 0 ≤ b → 0 ≤ Nat.iter n fade_step b ≤ b.
Proof.
  intros Hb. induction n as [|n IH]; [cbn; lia|].
  rewrite Nat.iter_succ.
  pose proof (fade_step_bounds _ (proj1 IH)). lia.
Qed.

Lemma iter_fade_mono n a b :
  a ≤ b → Nat.iter n fade_step a ≤ Nat.iter n fade_step b.
Proof.
  intros Hab. induction n as [|n IH]; [exact Hab|].
  rewrite !Nat.iter_succ. apply fade_step_mono, IH.
Qed.

(** From any brightness up to 255 the fade is over after 21 frames. *)
Lemma iter_fade_dark n b :
  0 ≤ b ≤ 255 → (21 ≤ n)%nat → Nat.iter n fade_step b = 0.
Proof.
  intros Hb Hn.
  replace n with ((n - 21) + 21)%nat by lia.
  rewrite Nat.iter_add.
  pose proof (iter_fade_mono 21 b 255 (proj2 Hb)) as Hup.
  pose proof (iter_fade_bounds 21 b (proj1 Hb)) as Hlow.
  change (Nat.iter 21 fade_step 255) with 0 in Hup.
  replace (Nat.iter 21 fade_step b) with 0 by lia.
  pose proof (iter_fade_bounds (n - 21) 0 (Z.le_refl 0)). lia.
Qed.

Lemma iter_fade_below_closed_form n :
  Nat.iter n fade_step 255 ≤ closed_form_fade n.
Proof.
  unfold closed_form_fade.
  assert (H5 : ∀ k, 0 < 5 ^ Z.of_nat k) by (intros; apply Z.pow_pos_nonneg; lia).
  apply Z.div_le_lower_bound; [apply H5|].
  induction n as [|n IH]; [cbn; lia|].
  rewrite Nat2Z.inj_succ, !Z.pow_succ_r by lia.
  rewrite Nat.iter_succ.
  pose proof (iter_fade_bounds n 255 ltac:(lia)) as Hb.
  set (a := Nat.iter n fade_step 255) in *.
  assert (Hstep : 5 * fade_step a ≤ 4 * a)
    by (unfold fade_step; Z.to_euclidean_division_equations; lia).
  specialize (H5 n). nia.
Qed.

(** ** The sensor scan *)

Lemma scan_flag rd l h : (scan rd l h).2 = anySensor rd.
Proof.
  unfold scan, anySensor, scan_step. cbn.
  repeat destruct (_ =? LOW); reflexivity.
Qed.

Lemma scan_idle rd l h : anySensor rd = false → scan rd l h = (l, h, false).
Proof.
  unfold scan, anySensor, scan_step. cbn.
  repeat destruct (_ =? LOW); cbn; intros H; try discriminate H; reflexivity.
Qed.

Lemma scan_length_bound rd l h : l < INT_MAX → (scan rd l h).1.1 < INT_MAX.
Proof.
  unfold scan, scan_step, INT_MAX. cbn. intros Hl.
  repeat destruct (_ =? LOW); cbn; lia.
Qed.

Lemma scan_last rd n : ∀ acc imax,
  (imax < n)%nat →
  rd (nth imax sensorPins 0) = LOW →
  (∀ j, (imax < j < n)%nat → rd (nth j sensorPins 0) ≠ LOW) →
  fold_left (scan_step rd) (seq 0 n) acc
  = (nth imax lengths 0, nth imax hues 0, true).
Proof.
  induction n as [|n IH]; intros acc imax Hlt Hon Hoff; [lia|].
  rewrite seq_S, fold_left_app. cbn.
  unfold scan_step at 1.
  destruct (Z.eqb_spec (rd (nth n sensorPins 0)) LOW) as [Hn|Hn].
  - destruct (decide (imax = n)) as [->|Hne]; [reflexivity|].
    exfalso. apply (Hoff n); [lia|exact Hn].
  - destruct (decide (imax = n)) as [->|Hne]; [contradiction|].
    apply IH; [lia|exact Hon|]. intros j Hj. apply Hoff. lia.
Qed.

(** ** One frame *)

Lemma fade_exact b : 0 ≤ b ≤ 255 → fade b = fade_step b.
Proof.
  intros Hb. unfold fade. rewrite mul_0_8f_exact by exact Hb.
  pose proof (fade_step_bounds b (proj1 Hb)) as Hf.
  rewrite wrap16_id by (unfold INT_MIN, INT_MAX; lia).
  destruct (Z.ltb_spec (fade_step b) 0); lia.
Qed.

Section FrameProofs.

Variable hsv2rgb_rainbow : CHSV → CRGB.

Lemma loop_fields rd st :
  frame_ready st →
  ∃ st' px,
    loop hsv2rgb_rainbow rd st
    = Some (st', (if rising rd st then [PlayTrack 1] else [])
                 ++ [SetBrightness (to_u8 (brightness st')); Show px; Delay 10])
    ∧ pos16 st' = (if rising rd st then 1
                   else (pos16 st + 1) mod (NUM_LEDS * 16))
    ∧ delta16 st' = 1
    ∧ (length st', hue st', wasOverSensor st') = scan rd (length st) (hue st)
    ∧ brightness st' = (if anySensor rd then 255 else fade (brightness st))
    ∧ frame_ready st'.
Proof.
  intros (Hpos & Hd & Hlen). unfold loop.
  pose proof (scan_flag rd (length st) (hue st)) as Hflag.
  pose proof (scan_length_bound rd (length st) (hue st) Hlen) as Hl.
  destruct (scan rd (length st) (hue st)) as [[l1 h1] o].
  cbn [fst snd] in Hflag, Hl. subst o. cbv zeta. fold (rising rd st).
  set (pos1 := if rising rd st then 0 else pos16 st).
  assert (Hpos1 : 0 ≤ pos1 < NUM_LEDS * 16)
    by (subst pos1; destruct (rising rd st); unfold NUM_LEDS in *; lia).
  rewrite drawLightbar_slots by assumption. cbn [mbind option_bind].
  rewrite Hd.
  assert (Hnext :
    (if wrap16 (pos1 + 1) >=? NUM_LEDS * 16
     then wrap16 (wrap16 (pos1 + 1) - NUM_LEDS * 16)
     else wrap16 (pos1 + 1))
    = (if rising rd st then 1 else (pos16 st + 1) mod (NUM_LEDS * 16))).
  { unfold NUM_LEDS in *.
    rewrite (wrap16_id (pos1 + 1)) by (unfold INT_MIN, INT_MAX; lia).
    rewrite Z.geb_leb.
    destruct (Z.leb_spec (12 * 16) (pos1 + 1)).
    - rewrite wrap16_id by (unfold INT_MIN, INT_MAX; lia).
      subst pos1. destruct (rising rd st); [lia|].
      Z.to_euclidean_division_equations; lia.
    - subst pos1. destruct (rising rd st); [lia|].
      Z.to_euclidean_division_equations; lia. }
  rewrite Hnext.
  eexists (mkState _ _ _ _ _ _ _), _. split; [reflexivity|].
  unfold frame_ready.
  cbn [pos16 delta16 hue brightness length wasOverSensor].
  pose proof (Z.mod_pos_bound (pos16 st + 1) (NUM_LEDS * 16) eq_refl).
  repeat split; try reflexivity; try assumption;
    destruct (rising rd st); unfold NUM_LEDS in *; lia.
Qed.

(** What a frame does from any state in which it completes. *)
Lemma loop_some rd st st' evs :
  loop hsv2rgb_rainbow rd st = Some (st', evs) →
  List.filter is_playTrack evs = (if rising rd st then [PlayTrack 1] else [])
  ∧ wasOverSensor st' = anySensor rd.
Proof.
  unfold loop.
  pose proof (scan_flag rd (length st) (hue st)) as Hflag.
  destruct (scan rd (length st) (hue st)) as [[l1 h1] o].
  cbn [fst snd] in Hflag. subst o. cbv zeta. fold (rising rd st).
  destruct (drawLightbar _ l1 h1) as [ws|]; [|discriminate].
  cbn [mbind option_bind]. intros [= <- <-]. split; [|reflexivity].
  destruct (rising rd st); reflexivity.
Qed.

(** Where a frame draws the bar: at 0 on a rising edge, else at the position
    the frame started with. *)
Lemma loop_draws rd st st' evs :
  loop hsv2rgb_rainbow rd st = Some (st', evs) →
  ∃ ws,
    drawLightbar (if rising rd st then 0 else pos16 st) (length st') (hue st')
    = Some ws
    ∧ leds st' = paint hsv2rgb_rainbow ws (replicate (Z.to_nat NUM_LEDS) black).
Proof.
  unfold loop.
  pose proof (scan_flag rd (length st) (hue st)) as Hflag.
  destruct (scan rd (length st) (hue st)) as [[l1 h1] o].
  cbn [fst snd] in Hflag. subst o. cbv zeta. fold (rising rd st).
  destruct (drawLightbar _ l1 h1) as [ws|] eqn:Hdraw; [|discriminate].
  cbn [mbind option_bind]. intros [= <- <-]. exists ws.
  split; [exact Hdraw|reflexivity].
Qed.

Lemma playTrack_calls_app ev1 ev2 :
  playTrack_calls (ev1 ++ ev2)
  = (playTrack_calls ev1 + playTrack_calls ev2)%nat.
Proof. unfold playTrack_calls. rewrite List.filter_app, length_app. reflexivity. Qed.

Lemma run_some rds : ∀ st st' evs,
  run hsv2rgb_rainbow rds st = Some (st', evs) →
  playTrack_calls evs
  = rising_edges (wasOverSensor st) (anySensor <$> rds).
Proof.
  induction rds as [|rd rds IH]; intros st st' evs; cbn.
  - intros [= <- <-]. reflexivity.
  - destruct (loop hsv2rgb_rainbow rd st) as [[st1 ev1]|] eqn:Hloop;
      [|discriminate]. cbn [mbind option_bind].
    destruct (run hsv2rgb_rainbow rds st1) as [[st2 ev2]|] eqn:Hrun;
      [|discriminate]. cbn [mbind option_bind].
    intros [= <- <-].
    destruct (loop_some _ _ _ _ Hloop) as [Hplay Hwas].
    rewrite playTrack_calls_app, (IH _ _ _ Hrun), Hwas.
    unfold playTrack_calls at 1. rewrite Hplay. unfold rising.
    destruct (anySensor rd && negb (wasOverSensor st)); reflexivity.
Qed.

Lemma run_ready rds : ∀ st,
  frame_ready st →
  ∃ st' evs, run hsv2rgb_rainbow rds st = Some (st', evs) ∧ frame_ready st'.
Proof.
  induction rds as [|rd rds IH]; intros st Hst; cbn.
  - eauto.
  - destruct (loop_fields rd st Hst) as (st1 & px & -> & _ & _ & _ & _ & H1).
    cbn [mbind option_bind].
    destruct (IH st1 H1) as (st2 & ev2 & -> & H2).
    cbn [mbind option_bind]. eauto.
Qed.

Lemma run_idle rds : ∀ st,
  frame_ready st → 0 ≤ brightness st ≤ 255 →
  Forall (λ rd, anySensor rd = false) rds →
  ∃ st' evs,
    run hsv2rgb_rainbow rds st = Some (st', evs)
    ∧ frame_ready st'
    ∧ brightness st' = Nat.iter (List.length rds) fade_step (brightness st).
Proof.
  induction rds as [|rd rds IH]; intros st Hst Hb Hidle; cbn [run].
  - eexists _, _. split; [reflexivity|]. split; [assumption|reflexivity].
  - apply Forall_cons in Hidle as [Hrd Hidle].
    destruct (loop_fields rd st Hst)
      as (st1 & px & -> & _ & _ & _ & Hb1 & H1).
    rewrite Hrd, fade_exact in Hb1 by exact Hb.
    cbn [mbind option_bind].
    pose proof (fade_step_bounds _ (proj1 Hb)) as Hf.
    destruct (IH st1 H1 ltac:(lia) Hidle) as (st2 & ev2 & -> & H2 & Hb2).
    cbn [mbind option_bind].
    eexists _, _. split; [reflexivity|]. split; [assumption|].
    rewrite Hb2, Hb1. cbn [List.length]. rewrite Nat.iter_succ_r. reflexivity.
Qed.

Lemma reachable_ready st :
  reachable hsv2rgb_rainbow st → frame_ready st ∧ 0 ≤ brightness st ≤ 255.
Proof.
  induction 1 as [|st rd st' evs Hreach [Hst Hb] Hloop].
  - unfold frame_ready, initial, NUM_LEDS, INT_MAX. cbn. lia.
  - destruct (loop_fields rd st Hst)
      as (st1 & px & Heq & _ & _ & _ & Hb1 & H1).
    rewrite Heq in Hloop. injection Hloop as <- _.
    split; [assumption|]. rewrite Hb1.
    destruct (anySensor rd); [lia|].
    rewrite fade_exact by exact Hb.
    pose proof (fade_step_bounds _ (proj1 Hb)). lia.
Qed.

End FrameProofs.

(** ** The painted bar *)

Lemma bar_slots_length p l h :
  List.length (bar_slot p l h <$> seqZ 0 (l + 1)) = Z.to_nat (l + 1).
Proof. rewrite length_fmap, length_seqZ. reflexivity. Qed.

Lemma bar_slots_lookup p l h k :
  0 ≤ k ≤ l →
  (bar_slot p l h <$> seqZ 0 (l + 1)) !! Z.to_nat k = Some (bar_slot p l h k).
Proof.
  intros Hk. rewrite list_lookup_fmap, lookup_seqZ_lt by lia.
  cbn. rewrite Z2Nat.id by lia. reflexivity.
Qed.

Lemma bar_slots_in_bounds p l h a n :
  Forall (λ w : led_write, 0 ≤ w.1 < NUM_LEDS) (bar_slot p l h <$> seqZ a n).
Proof.
  apply Forall_fmap, Forall_forall. intros k _. cbn.
  apply Z.mod_pos_bound. reflexivity.
Qed.

Lemma total_brightness_app ws1 ws2 :
  total_brightness (ws1 ++ ws2) = total_brightness ws1 + total_brightness ws2.
Proof.
  unfold total_brightness. induction ws1 as [|w ws1 IH]; cbn; [reflexivity|].
  rewrite IH. lia.
Qed.

Lemma middle_slots_total p l h n : ∀ a,
  0 < a → a + Z.of_nat n ≤ l →
  total_brightness (bar_slot p l h <$> seqZ a (Z.of_nat n)) = 255 * Z.of_nat n.
Proof.
  induction n as [|n IH]; intros a Ha Hl; [reflexivity|].
  rewrite seqZ_cons by lia.
  replace (Z.pred (Z.of_nat (S n))) with (Z.of_nat n) by lia.
  cbn [fmap list_fmap]. change (total_brightness (?w :: ?ws))
    with (hsv_v w.2 + total_brightness ws).
  rewrite IH by lia. unfold bar_slot, slot_bright. cbn [snd hsv_v].
  destruct (Z.eqb_spec a 0); [lia|]. destruct (Z.eqb_spec a l); lia.
Qed.

Lemma bar_slots_total p l h :
  1 ≤ l → total_brightness (bar_slot p l h <$> seqZ 0 (l + 1)) = 255 * l.
Proof.
  intros Hl.
  rewrite seqZ_cons by lia.
  replace (Z.pred (l + 1)) with ((l - 1) + 1) by lia.
  rewrite seqZ_app by lia.
  rewrite (seqZ_cons (Z.succ 0 + (l - 1))), (seqZ_nil _ (Z.pred 1)) by lia.
  cbn [fmap list_fmap]. rewrite fmap_app.
  change (total_brightness (?w :: ?ws))
    with (hsv_v w.2 + total_brightness ws).
  rewrite total_brightness_app.
  replace (l - 1) with (Z.of_nat (Z.to_nat (l - 1))) at 1 by lia.
  rewrite middle_slots_total by lia.
  unfold total_brightness, bar_slot, slot_bright.
  cbn [fmap list_fmap foldr snd hsv_v].
  replace (Z.succ 0 + (l - 1)) with l by lia.
  change (0 =? 0) with true. cbv iota.
  destruct (Z.eqb_spec l 0); [lia|]. destruct (Z.eqb_spec l l); lia.
Qed.

(** * The renderer *)

(** C2: for a position on the strip and a length from 1 to NUM_LEDS - 1,
    drawLightbar paints length + 1 slots, the head at brightness
    255 - (pos16 mod 16) * 16, the tail at the complement, the middle slots at
    255, and the brightness values add up to 255 * length. *)
Theorem lightbar_brightness_sum pos16 length hue :
  0 ≤ pos16 < NUM_LEDS * 16 → 1 ≤ length < NUM_LEDS →
  ∃ ws,
    drawLightbar pos16 length hue = Some ws
    ∧ List.length ws = Z.to_nat (length + 1)
    ∧ (∀ k, 0 ≤ k ≤ length →
         hsv_v ∘ snd <$> ws !! Z.to_nat k
         = Some (if k =? 0 then 255 - (pos16 mod 16) * 16
                 else if k =? length then 255 - (255 - (pos16 mod 16) * 16)
                 else 255))
    ∧ total_brightness ws = 255 * length.
Proof.
  intros Hpos Hlen. eexists.
  split; [apply drawLightbar_slots; unfold NUM_LEDS, INT_MAX in *; lia|].
  split; [apply bar_slots_length|].
  split; [|apply bar_slots_total; lia].
  intros k Hk. rewrite bar_slots_lookup by exact Hk. reflexivity.
Qed.

(** C9: for a position on the strip and a length from 0 to NUM_LEDS - 1,
    drawLightbar completes, and each of its length + 1 writes to leds uses an
    index from 0 to NUM_LEDS - 1. *)
Theorem lightbar_in_bounds pos16 length hue :
  0 ≤ pos16 < NUM_LEDS * 16 → 0 ≤ length < NUM_LEDS →
  ∃ ws,
    drawLightbar pos16 length hue = Some ws
    ∧ List.length ws = Z.to_nat (length + 1)
    ∧ Forall (λ w : led_write, 0 ≤ w.1 < NUM_LEDS) ws.
Proof.
  intros Hpos Hlen. eexists.
  split; [apply drawLightbar_slots; unfold NUM_LEDS, INT_MAX in *; lia|].
  split; [apply bar_slots_length|apply bar_slots_in_bounds].
Qed.

(** * The frame loop *)

Section Claims.

Variable hsv2rgb_rainbow : CHSV → CRGB.

(** C1, with the rising-edge case as the code has it: for two consecutive
    frames, the later one ends with pos16 one past the value the earlier one
    ended with, modulo NUM_LEDS * 16, except when it is a rising edge (a
    sensor asserted on the later frame, none on the earlier one): then the bar
    is drawn at position 0 and the frame ends with pos16 = 1. *)
Theorem pos16_advance rd1 rd2 st :
  reachable hsv2rgb_rainbow st →
  ∃ st1 ev1 st2 ev2,
    loop hsv2rgb_rainbow rd1 st = Some (st1, ev1)
    ∧ loop hsv2rgb_rainbow rd2 st1 = Some (st2, ev2)
    ∧ pos16 st2 = (if anySensor rd2 && negb (anySensor rd1) then 1
                   else (pos16 st1 + 1) mod (NUM_LEDS * 16))
    ∧ ∃ ws,
        drawLightbar
          (if anySensor rd2 && negb (anySensor rd1) then 0 else pos16 st1)
          (length st2) (hue st2) = Some ws
        ∧ leds st2
          = paint hsv2rgb_rainbow ws (replicate (Z.to_nat NUM_LEDS) black).
Proof.
  intros Hreach. apply reachable_ready in Hreach as [Hst _].
  destruct (loop_fields hsv2rgb_rainbow rd1 st Hst)
    as (st1 & px1 & Heq1 & _ & _ & _ & _ & Hst1).
  destruct (loop_some hsv2rgb_rainbow rd1 st st1 _ Heq1) as [_ Hwas].
  destruct (loop_fields hsv2rgb_rainbow rd2 st1 Hst1)
    as (st2 & px2 & Heq2 & Hpos & _).
  pose proof (loop_draws hsv2rgb_rainbow rd2 st1 st2 _ Heq2) as Hdraw.
  unfold rising in Hpos, Hdraw. rewrite Hwas in Hpos, Hdraw.
  exists st1. eexists. exists st2. eexists.
  split; [exact Heq1|]. split; [exact Heq2|]. split; [exact Hpos|exact Hdraw].
Qed.

(** C3: over any finite sequence of frames, from any state, the number of
    playTrack calls is the number of false-to-true transitions of the
    any-sensor-asserted samples (the first compared with wasOverSensor); a
    rising-edge frame makes exactly one call, playTrack(1), any other frame
    none; and the frames complete from every state with pos16 on the strip,
    delta16 = 1 and length below INT_MAX. *)
Theorem playTrack_on_rising_edges :
  (∀ rds st st' evs,
     run hsv2rgb_rainbow rds st = Some (st', evs) →
     playTrack_calls evs
     = rising_edges (wasOverSensor st) (anySensor <$> rds))
  ∧ (∀ rd st st' evs,
       loop hsv2rgb_rainbow rd st = Some (st', evs) →
       List.filter is_playTrack evs
       = (if rising rd st then [PlayTrack 1] else []))
  ∧ (∀ rds st, frame_ready st → ∃ st' evs, run hsv2rgb_rainbow rds st = Some (st', evs)).
Proof.
  split; [exact (run_some hsv2rgb_rainbow)|]. split.
  - intros rd st st' evs Hloop.
    exact (proj1 (loop_some hsv2rgb_rainbow rd st st' evs Hloop)).
  - intros rds st Hst.
    destruct (run_ready hsv2rgb_rainbow rds st Hst) as (st' & evs & Hrun & _).
    eauto.
Qed.

(** C4: starting from the power-on state, pos16 lies in
    [0, NUM_LEDS * 16) after every frame, and every frame completes. *)
Theorem pos16_in_range st :
  reachable hsv2rgb_rainbow st →
  0 ≤ pos16 st < NUM_LEDS * 16
  ∧ ∀ rd, ∃ st' evs,
      loop hsv2rgb_rainbow rd st = Some (st', evs) ∧ 0 ≤ pos16 st' < NUM_LEDS * 16.
Proof.
  intros Hreach. pose proof (reachable_ready _ _ Hreach) as [Hst _].
  split; [exact (proj1 Hst)|]. intros rd.
  destruct (loop_fields hsv2rgb_rainbow rd st Hst)
    as (st' & px & Heq & _ & _ & _ & _ & Hst').
  exists st'. eexists. split; [exact Heq|exact (proj1 Hst')].
Qed.

(** C5, with the fade as the code computes it: from brightness 255, after n
    frames with no sensor asserted the brightness is the n-fold iterate of
    b |-> floor(b * 4 / 5) on 255 (204, 163, 130, 104, 83, 66, 52, ...); it
    never exceeds floor(255 * 0.8^n), equals it for n up to 6, and is 0 from
    the 21st idle frame on. *)
Theorem idle_fade_iterated st rds :
  frame_ready st → brightness st = 255 →
  Forall (λ rd, anySensor rd = false) rds →
  ∃ st' evs,
    run hsv2rgb_rainbow rds st = Some (st', evs)
    ∧ brightness st' = Nat.iter (List.length rds) fade_step 255
    ∧ brightness st' ≤ closed_form_fade (List.length rds)
    ∧ ((List.length rds ≤ 6)%nat →
       brightness st' = closed_form_fade (List.length rds))
    ∧ ((21 ≤ List.length rds)%nat → brightness st' = 0).
Proof.
  intros Hst Hb Hidle.
  destruct (run_idle hsv2rgb_rainbow rds st Hst ltac:(lia) Hidle)
    as (st' & evs & Hrun & _ & Hb').
  rewrite Hb in Hb'. exists st', evs.
  split; [exact Hrun|]. split; [exact Hb'|]. rewrite Hb'.
  split; [apply iter_fade_below_closed_form|]. split.
  - generalize (List.length rds). intros n Hn.
    do 7 (destruct n as [|n]; [vm_compute; reflexivity|]). lia.
  - intros Hn. apply iter_fade_dark; lia.
Qed.

(** C6, for frames that are not a rising edge: slot k of the bar is painted
    at strip index
    (pos16 / 16 + k) mod NUM_LEDS; at pos16 = 191 with length 2 the writes go
    to pixels 11, 0 and 1 with brightness 15, 255 and 240; and a frame that
    starts at pos16 = 191 and is not a rising edge ends with pos16 = 0. *)
Theorem lightbar_wraps :
  (∀ pos16 length hue,
     0 ≤ pos16 < NUM_LEDS * 16 → length < INT_MAX →
     ∃ ws,
       drawLightbar pos16 length hue = Some ws
       ∧ List.length ws = Z.to_nat (length + 1)
       ∧ ∀ k, 0 ≤ k ≤ length →
           fst <$> ws !! Z.to_nat k = Some ((pos16 / 16 + k) mod NUM_LEDS))
  ∧ (∀ hue,
       drawLightbar 191 2 hue
       = Some [(11, mkCHSV (to_u8 hue) 255 15);
               (0, mkCHSV (to_u8 hue) 255 255);
               (1, mkCHSV (to_u8 hue) 255 240)])
  ∧ (∀ rd st,
       frame_ready st → pos16 st = 191 → rising rd st = false →
       ∃ st' evs,
         loop hsv2rgb_rainbow rd st = Some (st', evs) ∧ pos16 st' = 0).
Proof.
  split; [|split].
  - intros p l h Hp Hl. eexists.
    split; [apply drawLightbar_slots; assumption|].
    split; [apply bar_slots_length|].
    intros k Hk. rewrite bar_slots_lookup by exact Hk. reflexivity.
  - intros h. reflexivity.
  - intros rd st Hst Hpos Hrise.
    destruct (loop_fields hsv2rgb_rainbow rd st Hst)
      as (st' & px & Heq & Hpos' & _).
    rewrite Hrise, Hpos in Hpos'. rewrite Hrise in Heq.
    exists st'. eexists. split; [exact Heq|exact Hpos'].
Qed.

(** C7: when sensors are asserted, the frame takes the length and hue of
    the highest-index asserted sensor; with sensors 1 and 4 asserted and
    sensor 5 not, length = 6 and hue = 120. *)
Theorem highest_sensor_wins :
  (∀ rd st imax,
     frame_ready st →
     (imax < numSensors)%nat →
     rd (nth imax sensorPins 0) = LOW →
     (∀ j, (imax < j < numSensors)%nat → rd (nth j sensorPins 0) ≠ LOW) →
     ∃ st' evs,
       loop hsv2rgb_rainbow rd st = Some (st', evs)
       ∧ length st' = nth imax lengths 0
       ∧ hue st' = nth imax hues 0)
  ∧ (∀ rd st,
       frame_ready st →
       rd 3 = LOW → rd 6 = LOW → rd 7 ≠ LOW →
       ∃ st' evs,
         loop hsv2rgb_rainbow rd st = Some (st', evs)
         ∧ length st' = 6 ∧ hue st' = 120).
Proof.
  assert (Hgen : ∀ rd st imax,
     frame_ready st →
     (imax < numSensors)%nat →
     rd (nth imax sensorPins 0) = LOW →
     (∀ j, (imax < j < numSensors)%nat → rd (nth j sensorPins 0) ≠ LOW) →
     ∃ st' evs,
       loop hsv2rgb_rainbow rd st = Some (st', evs)
       ∧ length st' = nth imax lengths 0
       ∧ hue st' = nth imax hues 0).
  { intros rd st imax Hst Hlt Hon Hoff.
    destruct (loop_fields hsv2rgb_rainbow rd st Hst)
      as (st' & px & Heq & _ & _ & Hscan & _).
    unfold scan in Hscan.
    rewrite (scan_last rd numSensors _ imax Hlt Hon Hoff) in Hscan.
    injection Hscan as Hl Hh _.
    exists st'. eexists. split; [exact Heq|]. split; assumption. }
  split; [exact Hgen|].
  intros rd st Hst H3 H6 H7.
  apply (Hgen rd st 4%nat Hst); [unfold numSensors; lia|exact H6|].
  intros j Hj. unfold numSensors in Hj.
  assert (j = 5%nat) as -> by lia. exact H7.
Qed.

(** C8: from any state the loop reaches, a frame with no sensor asserted
    leaves a brightness that is not negative and not above the one before,
    and after 21 such frames in a row (or more) the brightness is 0. *)
Theorem idle_fade_monotone st :
  reachable hsv2rgb_rainbow st →
  (∀ rd, anySensor rd = false →
     ∃ st' evs,
       loop hsv2rgb_rainbow rd st = Some (st', evs)
       ∧ 0 ≤ brightness st' ≤ brightness st)
  ∧ (∀ rds, Forall (λ rd, anySensor rd = false) rds →
       ∃ st' evs,
         run hsv2rgb_rainbow rds st = Some (st', evs)
         ∧ 0 ≤ brightness st' ≤ brightness st
         ∧ ((21 ≤ List.length rds)%nat → brightness st' = 0)).
Proof.
  intros Hreach. apply reachable_ready in Hreach as [Hst Hb]. split.
  - intros rd Hrd.
    destruct (loop_fields hsv2rgb_rainbow rd st Hst)
      as (st' & px & Heq & _ & _ & _ & Hb' & _).
    rewrite Hrd, fade_exact in Hb' by exact Hb.
    pose proof (fade_step_bounds _ (proj1 Hb)).
    exists st'. eexists. split; [exact Heq|lia].
  - intros rds Hidle.
    destruct (run_idle hsv2rgb_rainbow rds st Hst Hb Hidle)
      as (st' & evs & Hrun & _ & Hb').
    pose proof (iter_fade_bounds (List.length rds) _ (proj1 Hb)).
    exists st', evs. split; [exact Hrun|]. split; [lia|].
    intros Hn. rewrite Hb'. apply iter_fade_dark; assumption.
Qed.

(** C10: a frame in which no sensor is asserted leaves length and hue as
    they were. *)
Theorem idle_keeps_length_hue rd st :
  frame_ready st → anySensor rd = false →
  ∃ st' evs,
    loop hsv2rgb_rainbow rd st = Some (st', evs)
    ∧ length st' = length st ∧ hue st' = hue st.
Proof.
  intros Hst Hrd.
  destruct (loop_fields hsv2rgb_rainbow rd st Hst)
    as (st' & px & Heq & _ & _ & Hscan & _).
  rewrite scan_idle in Hscan by exact Hrd. injection Hscan as Hl Hh _.
  exists st'. eexists. split; [exact Heq|]. split; assumption.
Qed.

End Claims.

(** * The theorems at concrete inputs *)

Lemma frame_ready_initial : frame_ready initial.
Proof. unfold frame_ready, initial, NUM_LEDS, INT_MAX. cbn. lia. Qed.

Lemma frame_ready_lit : frame_ready lit.
Proof. unfold frame_ready, lit, NUM_LEDS, INT_MAX. cbn. lia. Qed.

Lemma reachable_lit : reachable hsv2rgb_grey lit.
Proof.
  eapply (reachable_frame _ initial (pressed 3)); [apply reachable_initial|].
  vm_compute. reflexivity.
Qed.

Lemma released_idle n :
  Forall (λ rd, anySensor rd = false) (replicate n released).
Proof. induction n as [|n IH]; constructor; [reflexivity|exact IH]. Qed.

(** The bar at pos16 = 191 with length 2: brightness 15 + 255 + 240. *)
Lemma lightbar_brightness_sum_witness :
  0 ≤ 191 < NUM_LEDS * 16 ∧ 1 ≤ 2 < NUM_LEDS ∧
  ∃ ws,
    drawLightbar 191 2 20 = Some ws
    ∧ List.length ws = Z.to_nat (2 + 1)
    ∧ (∀ k, 0 ≤ k ≤ 2 →
         hsv_v ∘ snd <$> ws !! Z.to_nat k
         = Some (if k =? 0 then 255 - (191 mod 16) * 16
                 else if k =? 2 then 255 - (255 - (191 mod 16) * 16)
                 else 255))
    ∧ total_brightness ws = 255 * 2.
Proof.
  split; [unfold NUM_LEDS; lia|]. split; [unfold NUM_LEDS; lia|].
  apply (lightbar_brightness_sum 191 2 20); unfold NUM_LEDS; lia.
Defined.

Lemma lightbar_in_bounds_witness :
  0 ≤ 191 < NUM_LEDS * 16 ∧ 0 ≤ 7 < NUM_LEDS ∧
  ∃ ws,
    drawLightbar 191 7 160 = Some ws
    ∧ List.length ws = Z.to_nat (7 + 1)
    ∧ Forall (λ w : led_write, 0 ≤ w.1 < NUM_LEDS) ws.
Proof.
  split; [unfold NUM_LEDS; lia|]. split; [unfold NUM_LEDS; lia|].
  apply (lightbar_in_bounds 191 7 160); unfold NUM_LEDS; lia.
Defined.

(** An idle frame, then a frame with sensor 0 asserted. *)
Lemma pos16_advance_witness :
  reachable hsv2rgb_grey lit ∧
  ∃ st1 ev1 st2 ev2,
    loop hsv2rgb_grey released lit = Some (st1, ev1)
    ∧ loop hsv2rgb_grey (pressed 0) st1 = Some (st2, ev2)
    ∧ pos16 st2 = (if anySensor (pressed 0) && negb (anySensor released)
                   then 1 else (pos16 st1 + 1) mod (NUM_LEDS * 16))
    ∧ ∃ ws,
        drawLightbar
          (if anySensor (pressed 0) && negb (anySensor released)
           then 0 else pos16 st1)
          (length st2) (hue st2) = Some ws
        ∧ leds st2
          = paint hsv2rgb_grey ws (replicate (Z.to_nat NUM_LEDS) black).
Proof.
  split; [exact reachable_lit|].
  apply (pos16_advance hsv2rgb_grey released (pressed 0) lit).
  exact reachable_lit.
Defined.

(** Against C1 as the specification words it: two idle frames leave
    pos16 = 2; the rising-edge frame that follows ends with pos16 = 1,
    not 0. *)
Lemma rising_edge_ends_at_1 :
  pos16 ∘ fst <$> run hsv2rgb_grey [released; released] initial = Some 2
  ∧ wasOverSensor ∘ fst <$> run hsv2rgb_grey [released; released] initial
    = Some false
  ∧ anySensor (pressed 0) = true
  ∧ pos16 ∘ fst <$> run hsv2rgb_grey [released; released; pressed 0] initial
    = Some 1
  ∧ pos16 ∘ fst <$> run hsv2rgb_grey [released; released; pressed 0] initial
    ≠ Some 0.
Proof.
  repeat split; try (vm_compute; reflexivity).
  vm_compute. discriminate.
Qed.

(** Five frames with two rising edges. *)
Lemma playTrack_on_rising_edges_witness :
  frame_ready initial ∧
  ∃ st' evs,
    run hsv2rgb_grey [released; pressed 3; pressed 3; released; pressed 1]
      initial = Some (st', evs)
    ∧ playTrack_calls evs = 2%nat.
Proof.
  split; [exact frame_ready_initial|].
  destruct (playTrack_on_rising_edges hsv2rgb_grey) as (Hcount & _ & Hrun).
  destruct (Hrun [released; pressed 3; pressed 3; released; pressed 1]
              initial frame_ready_initial) as (st' & evs & Heq).
  exists st', evs. split; [exact Heq|].
  rewrite (Hcount _ _ _ _ Heq). vm_compute. reflexivity.
Defined.

Lemma pos16_in_range_witness :
  reachable hsv2rgb_grey lit ∧
  0 ≤ pos16 lit < NUM_LEDS * 16
  ∧ ∀ rd, ∃ st' evs,
      loop hsv2rgb_grey rd lit = Some (st', evs)
      ∧ 0 ≤ pos16 st' < NUM_LEDS * 16.
Proof.
  split; [exact reachable_lit|].
  apply (pos16_in_range hsv2rgb_grey lit). exact reachable_lit.
Defined.

(** Seven idle frames after full brightness. *)
Lemma idle_fade_iterated_witness :
  frame_ready lit ∧ brightness lit = 255 ∧
  Forall (λ rd, anySensor rd = false) (replicate 7 released) ∧
  ∃ st' evs,
    run hsv2rgb_grey (replicate 7 released) lit = Some (st', evs)
    ∧ brightness st' = 52.
Proof.
  split; [exact frame_ready_lit|]. split; [reflexivity|].
  split; [exact (released_idle 7)|].
  destruct (idle_fade_iterated hsv2rgb_grey lit (replicate 7 released)
              frame_ready_lit eq_refl (released_idle 7))
    as (st' & evs & Heq & Hb & _).
  exists st', evs. split; [exact Heq|]. rewrite Hb. vm_compute. reflexivity.
Defined.

(** Against C5 as the specification words it: after 7 idle frames the loop
    leaves brightness 52 where floor(255 * 0.8^7) = 53. *)
Lemma fade_differs_from_closed_form :
  brightness ∘ fst <$> loop hsv2rgb_grey (pressed 3) initial = Some 255
  ∧ brightness ∘ fst
    <$> run hsv2rgb_grey (pressed 3 :: replicate 7 released) initial
    = Some 52
  ∧ closed_form_fade 7 = 53.
Proof. repeat split; vm_compute; reflexivity. Qed.

Lemma lightbar_wraps_witness :
  0 ≤ 191 < NUM_LEDS * 16 ∧ 2 < INT_MAX ∧
  frame_ready (mkState 191 1 0 255 2 true []) ∧
  rising (pressed 0) (mkState 191 1 0 255 2 true []) = false ∧
  (∃ ws,
     drawLightbar 191 2 0 = Some ws
     ∧ fst <$> ws !! Z.to_nat 1 = Some ((191 / 16 + 1) mod NUM_LEDS))
  ∧ (∃ st' evs,
       loop hsv2rgb_grey (pressed 0) (mkState 191 1 0 255 2 true [])
       = Some (st', evs)
       ∧ pos16 st' = 0).
Proof.
  assert (Hst : frame_ready (mkState 191 1 0 255 2 true []))
    by (unfold frame_ready, NUM_LEDS, INT_MAX; cbn; lia).
  destruct (lightbar_wraps hsv2rgb_grey) as (Hidx & _ & Hframe).
  split; [unfold NUM_LEDS; lia|]. split; [unfold INT_MAX; lia|].
  split; [exact Hst|]. split; [reflexivity|]. split.
  - destruct (Hidx 191 2 0 ltac:(unfold NUM_LEDS; lia)
                ltac:(unfold INT_MAX; lia)) as (ws & Heq & _ & Hk).
    exists ws. split; [exact Heq|]. apply Hk. lia.
  - apply Hframe; [exact Hst|reflexivity|reflexivity].
Defined.

(** Against C6 as the specification words it: after 191 idle frames
    pos16 = 191, and the frame that follows, a rising edge, ends with
    pos16 = 1, not 0. *)
Lemma rising_edge_at_191 :
  pos16 ∘ fst <$> run hsv2rgb_grey (replicate 191 released) initial
  = Some 191
  ∧ pos16 ∘ fst
    <$> run hsv2rgb_grey (replicate 191 released ++ [pressed 0]) initial
    = Some 1
  ∧ pos16 ∘ fst
    <$> run hsv2rgb_grey (replicate 191 released ++ [pressed 0]) initial
    ≠ Some 0.
Proof.
  repeat split; try (vm_compute; reflexivity).
  vm_compute. discriminate.
Qed.

(** Sensors 1 and 4 asserted on the first frame. *)
Lemma highest_sensor_wins_witness :
  frame_ready initial ∧ (4 < numSensors)%nat ∧
  pressed2 1 4 (nth 4 sensorPins 0) = LOW ∧
  (∀ j, (4 < j < numSensors)%nat → pressed2 1 4 (nth j sensorPins 0) ≠ LOW) ∧
  ∃ st' evs,
    loop hsv2rgb_grey (pressed2 1 4) initial = Some (st', evs)
    ∧ length st' = 6 ∧ hue st' = 120.
Proof.
  assert (Hoff : ∀ j, (4 < j < numSensors)%nat →
                      pressed2 1 4 (nth j sensorPins 0) ≠ LOW).
  { intros j Hj. unfold numSensors in Hj.
    assert (j = 5%nat) as -> by lia. vm_compute. discriminate. }
  split; [exact frame_ready_initial|]. split; [unfold numSensors; lia|].
  split; [reflexivity|]. split; [exact Hoff|].
  exact (proj1 (highest_sensor_wins hsv2rgb_grey) (pressed2 1 4) initial 4%nat
           frame_ready_initial ltac:(unfold numSensors; lia) eq_refl Hoff).
Defined.

(** Idle frames after full brightness. *)
Lemma idle_fade_monotone_witness :
  reachable hsv2rgb_grey lit ∧
  (∀ rd, anySensor rd = false →
     ∃ st' evs,
       loop hsv2rgb_grey rd lit = Some (st', evs)
       ∧ 0 ≤ brightness st' ≤ brightness lit)
  ∧ (∀ rds, Forall (λ rd, anySensor rd = false) rds →
       ∃ st' evs,
         run hsv2rgb_grey rds lit = Some (st', evs)
         ∧ 0 ≤ brightness st' ≤ brightness lit
         ∧ ((21 ≤ List.length rds)%nat → brightness st' = 0)).
Proof.
  split; [exact reachable_lit|].
  apply (idle_fade_monotone hsv2rgb_grey lit). exact reachable_lit.
Defined.

Lemma idle_keeps_length_hue_witness :
  frame_ready lit ∧ anySensor released = false ∧
  ∃ st' evs,
    loop hsv2rgb_grey released lit = Some (st', evs)
    ∧ length st' = length lit ∧ hue st' = hue lit.
Proof.
  split; [exact frame_ready_lit|]. split; [reflexivity|].
  apply (idle_keeps_length_hue hsv2rgb_grey released lit);
    [exact frame_ready_lit|reflexivity].
Defined.

(** * Further properties of the renderer *)

Lemma quot_16_on_strip z :
  0 ≤ Z.quot z 16 < NUM_LEDS ↔ -16 < z < NUM_LEDS * 16.
Proof. unfold NUM_LEDS. Z.to_euclidean_division_equations. lia. Qed.

(** The writes for a position just left of pixel 0, where [pos16 / 16]
    truncates to 0. *)
Lemma drawLightbar_slots_left pos16 length hue :
  -16 < pos16 < 0 → length < INT_MAX →
  drawLightbar pos16 length hue
  = Some ((λ k, ((0 + k) mod NUM_LEDS,
                 mkCHSV (to_u8 hue) 255 (slot_bright pos16 length k)))
          <$> seqZ 0 (length + 1)).
Proof.
  intros Hpos Hlen. unfold drawLightbar. rewrite land_15.
  assert (Hq : Z.quot pos16 16 = 0)
    by (Z.to_euclidean_division_equations; lia).
  assert (Hm : 0 ≤ pos16 mod 16 < 16) by (apply Z.mod_pos_bound; lia).
  rewrite Hq.
  change (drawLightbar_for ?f ?l ?h ?a ?b 0 0)
    with (drawLightbar_for f l h a b 0 ((0 + 0) mod NUM_LEDS)).
  rewrite drawLightbar_for_slots by lia.
  replace (length + 1 - 0) with (length + 1) by lia.
  reflexivity.
Qed.

Lemma drawLightbar_off_strip pos16 length hue :
  0 ≤ length → ¬ (-16 < pos16 < NUM_LEDS * 16) →
  drawLightbar pos16 length hue = None.
Proof.
  intros Hlen Hpos. rewrite <- quot_16_on_strip in Hpos.
  unfold drawLightbar. cbn [drawLightbar_for].
  destruct (Z.leb_spec 0 length); [|lia].
  destruct (Z.leb_spec 0 (Z.quot pos16 16));
    destruct (Z.ltb_spec (Z.quot pos16 16) NUM_LEDS);
    try reflexivity.
  lia.
Qed.

(** X1: with a length from 0 to INT_MAX - 1, drawLightbar keeps every index
    inside leds exactly when -16 < pos16 < NUM_LEDS * 16; anywhere else its
    first write is out of bounds. *)
Theorem lightbar_in_bounds_iff pos16 length hue :
  0 ≤ length < INT_MAX →
  is_Some (drawLightbar pos16 length hue) ↔ -16 < pos16 < NUM_LEDS * 16.
Proof.
  intros Hlen. split.
  - intros Hsome.
    destruct (decide (-16 < pos16 < NUM_LEDS * 16)) as [Hin|Hout];
      [exact Hin|].
    rewrite (drawLightbar_off_strip _ _ _ (proj1 Hlen) Hout) in Hsome.
    destruct Hsome as [ws Hws]. discriminate Hws.
  - intros Hpos. destruct (Z.lt_ge_cases pos16 0) as [Hneg|Hnn].
    + rewrite drawLightbar_slots_left by lia. eauto.
    + rewrite drawLightbar_slots by lia. eauto.
Qed.

(** X2: a negative length paints nothing; length 0 paints one pixel, the
    head, at brightness 255 - (pos16 mod 16) * 16, with no tail to
    complement it. *)
Theorem lightbar_short_lengths pos16 hue :
  (∀ length, length < 0 → drawLightbar pos16 length hue = Some [])
  ∧ (0 ≤ pos16 < NUM_LEDS * 16 →
     drawLightbar pos16 0 hue
     = Some [(pos16 / 16, mkCHSV (to_u8 hue) 255 (255 - (pos16 mod 16) * 16))]).
Proof.
  split.
  - intros length Hlen. unfold drawLightbar. cbn [drawLightbar_for].
    destruct (Z.leb_spec 0 length); [lia|reflexivity].
  - intros Hpos. rewrite drawLightbar_slots by (unfold INT_MAX; lia).
    change (seqZ 0 (0 + 1)) with [0].
    unfold bar_slot, slot_bright. cbn.
    rewrite Z.add_0_r, Z.mod_small; [reflexivity|].
    unfold NUM_LEDS in *. Z.to_euclidean_division_equations. lia.
Qed.

Lemma bar_slots_indices p l h :
  (bar_slot p l h <$> seqZ 0 (l + 1)).*1
  = (λ k, (p / 16 + k) mod NUM_LEDS) <$> seqZ 0 (l + 1).
Proof. rewrite <- list_fmap_compose. reflexivity. Qed.

Lemma bar_slots_NoDup p l h :
  l < NUM_LEDS → NoDup (bar_slot p l h <$> seqZ 0 (l + 1)).*1.
Proof.
  intros Hl. rewrite bar_slots_indices.
  apply NoDup_fmap_2_strong; [|apply NoDup_seqZ].
  intros x y Hx Hy Heq.
  apply elem_of_seqZ in Hx. apply elem_of_seqZ in Hy. cbv beta in Heq.
  unfold NUM_LEDS in *. revert Heq. generalize (p / 16). intros q Heq.
  Z.to_euclidean_division_equations. lia.
Qed.

Lemma bar_slots_overlap p l h :
  NUM_LEDS ≤ l → ¬ NoDup (bar_slot p l h <$> seqZ 0 (l + 1)).*1.
Proof.
  intros Hl Hnd. rewrite bar_slots_indices in Hnd.
  rewrite NoDup_alt in Hnd.
  assert (Hsame : 0%nat = Z.to_nat NUM_LEDS); [|discriminate Hsame].
  apply (Hnd _ _ ((p / 16) mod NUM_LEDS)).
  - rewrite list_lookup_fmap, lookup_seqZ_lt by (unfold NUM_LEDS in *; lia).
    cbn. rewrite Z.add_0_r. reflexivity.
  - rewrite list_lookup_fmap, lookup_seqZ_lt by (unfold NUM_LEDS in *; lia).
    cbn. f_equal. unfold NUM_LEDS.
    Z.to_euclidean_division_equations. lia.
Qed.

(** X3: for a position on the strip, the writes of drawLightbar go to
    pairwise distinct pixels exactly when length < NUM_LEDS; from
    length = NUM_LEDS on, slot NUM_LEDS lands on the head's pixel again. *)
Theorem lightbar_pixels_distinct_iff pos16 length hue :
  0 ≤ pos16 < NUM_LEDS * 16 → length < INT_MAX →
  ∃ ws,
    drawLightbar pos16 length hue = Some ws
    ∧ (NoDup ws.*1 ↔ length < NUM_LEDS).
Proof.
  intros Hpos Hlen. eexists. split; [apply drawLightbar_slots; assumption|].
  split.
  - intros Hnd. destruct (Z.lt_ge_cases length NUM_LEDS) as [Hlt|Hge];
      [exact Hlt|].
    exfalso. exact (bar_slots_overlap _ _ _ Hge Hnd).
  - apply bar_slots_NoDup.
Qed.

(** ** The painted pixel array *)

Lemma paint_cons conv w ws px :
  paint conv (w :: ws) px
  = paint conv ws (alter (λ p, crgb_add p (conv w.2)) (Z.to_nat w.1) px).
Proof. reflexivity. Qed.

Lemma length_paint conv ws : ∀ px,
  List.length (paint conv ws px) = List.length px.
Proof.
  induction ws as [|w ws IH]; intros px; [reflexivity|].
  rewrite paint_cons, IH, length_alter. reflexivity.
Qed.

Lemma paint_lookup_notin conv ws : ∀ px j,
  j ∉ (Z.to_nat ∘ fst) <$> ws → paint conv ws px !! j = px !! j.
Proof.
  induction ws as [|w ws IH]; intros px j Hj; [reflexivity|].
  rewrite fmap_cons in Hj. apply not_elem_of_cons in Hj as [Hne Hj].
  rewrite paint_cons, IH by exact Hj.
  apply list_lookup_alter_ne. cbn in Hne. congruence.
Qed.

Lemma paint_lookup_in conv ws : ∀ px i c p,
  NoDup ((Z.to_nat ∘ fst) <$> ws) →
  (i, c) ∈ ws →
  px !! Z.to_nat i = Some p →
  paint conv ws px !! Z.to_nat i = Some (crgb_add p (conv c)).
Proof.
  induction ws as [|w ws IH]; intros px i c p Hnd Hin Hp.
  - apply elem_of_nil in Hin. contradiction.
  - rewrite fmap_cons in Hnd. apply NoDup_cons in Hnd as [Hfresh Hnd].
    rewrite paint_cons. apply elem_of_cons in Hin as [<-|Hin].
    + rewrite paint_lookup_notin by exact Hfresh.
      cbn [fst snd]. rewrite list_lookup_alter_eq, Hp. reflexivity.
    + apply (IH _ i c p Hnd Hin).
      rewrite list_lookup_alter_ne; [exact Hp|].
      intros Heq. apply Hfresh. cbn [compose]. rewrite Heq.
      apply (list_elem_of_fmap_2 (Z.to_nat ∘ fst) ws (i, c) Hin).
Qed.

Lemma bar_slots_nat_NoDup p l h :
  l < NUM_LEDS →
  NoDup ((Z.to_nat ∘ fst) <$> (bar_slot p l h <$> seqZ 0 (l + 1))).
Proof.
  intros Hl. rewrite <- list_fmap_compose.
  apply NoDup_fmap_2_strong; [|apply NoDup_seqZ].
  intros x y Hx Hy Heq.
  apply elem_of_seqZ in Hx. apply elem_of_seqZ in Hy.
  cbn in Heq. apply Z2Nat.inj in Heq;
    try (apply Z.mod_pos_bound; reflexivity).
  unfold NUM_LEDS in *. revert Heq. generalize (p / 16). intros q Heq.
  Z.to_euclidean_division_equations. lia.
Qed.

Lemma painted_bar conv p l h :
  0 ≤ l < NUM_LEDS →
  List.length (paint conv (bar_slot p l h <$> seqZ 0 (l + 1)) cleared)
  = Z.to_nat NUM_LEDS
  ∧ (∀ k, 0 ≤ k ≤ l →
       paint conv (bar_slot p l h <$> seqZ 0 (l + 1)) cleared
         !! Z.to_nat ((p / 16 + k) mod NUM_LEDS)
       = Some (crgb_add black
                 (conv (mkCHSV (to_u8 h) 255 (slot_bright p l k)))))
  ∧ (∀ j, (j < Z.to_nat NUM_LEDS)%nat →
       (∀ k, 0 ≤ k ≤ l → j ≠ Z.to_nat ((p / 16 + k) mod NUM_LEDS)) →
       paint conv (bar_slot p l h <$> seqZ 0 (l + 1)) cleared !! j
       = Some black).
Proof.
  intros Hl.
  split; [rewrite length_paint; apply length_replicate|]. split.
  - intros k Hk.
    apply (paint_lookup_in conv _ cleared
             ((p / 16 + k) mod NUM_LEDS)
             (mkCHSV (to_u8 h) 255 (slot_bright p l k)) black).
    + apply bar_slots_nat_NoDup. lia.
    + apply (list_elem_of_fmap_2' (bar_slot p l h) _ k);
        [apply elem_of_seqZ; lia|reflexivity].
    + apply lookup_replicate_2.
      pose proof (Z.mod_pos_bound (p / 16 + k) NUM_LEDS eq_refl). lia.
  - intros j Hj Hoff.
    rewrite paint_lookup_notin; [apply lookup_replicate_2; exact Hj|].
    rewrite <- list_fmap_compose. intros Hin.
    apply list_elem_of_fmap in Hin as (k & -> & Hk).
    apply elem_of_seqZ in Hk. apply (Hoff k); [lia|reflexivity].
Qed.

(** X4: drawn on the cleared array with a length below NUM_LEDS, the bar
    leaves NUM_LEDS pixels: slot k's pixel holds black plus the conversion
    of CHSV(hue, 255, brightness of slot k), and every other pixel is
    black. *)
Theorem cleared_strip_shows_bar conv pos16 length hue :
  0 ≤ pos16 < NUM_LEDS * 16 → 0 ≤ length < NUM_LEDS →
  ∃ ws,
    drawLightbar pos16 length hue = Some ws
    ∧ List.length (paint conv ws cleared) = Z.to_nat NUM_LEDS
    ∧ (∀ k, 0 ≤ k ≤ length →
         paint conv ws cleared !! Z.to_nat ((pos16 / 16 + k) mod NUM_LEDS)
         = Some (crgb_add black
                   (conv (mkCHSV (to_u8 hue) 255
                            (slot_bright pos16 length k)))))
    ∧ (∀ j, (j < Z.to_nat NUM_LEDS)%nat →
         (∀ k, 0 ≤ k ≤ length →
            j ≠ Z.to_nat ((pos16 / 16 + k) mod NUM_LEDS)) →
         paint conv ws cleared !! j = Some black).
Proof.
  intros Hpos Hlen. eexists.
  split; [apply drawLightbar_slots; unfold NUM_LEDS, INT_MAX in *; lia|].
  apply painted_bar. exact Hlen.
Qed.

(** * Further properties of the frame loop *)

Lemma scan_selects rd l h :
  scan rd l h = (l, h, false)
  ∨ ∃ i, (i < numSensors)%nat
         ∧ scan rd l h = (nth i lengths 0, nth i hues 0, true).
Proof.
  unfold scan, scan_step, numSensors. cbn.
  repeat destruct (_ =? LOW);
    first
      [ left; reflexivity
      | right; exists 5%nat; split; [lia|reflexivity]
      | right; exists 4%nat; split; [lia|reflexivity]
      | right; exists 3%nat; split; [lia|reflexivity]
      | right; exists 2%nat; split; [lia|reflexivity]
      | right; exists 1%nat; split; [lia|reflexivity]
      | right; exists 0%nat; split; [lia|reflexivity] ].
Qed.

(** The scan looks at nothing but whether each sensor pin reads LOW. *)
Lemma scan_ext rd rd' l h :
  (∀ i, (i < numSensors)%nat →
        (rd (nth i sensorPins 0) =? LOW) = (rd' (nth i sensorPins 0) =? LOW)) →
  scan rd l h = scan rd' l h.
Proof.
  intros Hsame. unfold scan.
  assert (Hstep : ∀ i acc, (i < numSensors)%nat →
                           scan_step rd acc i = scan_step rd' acc i).
  { intros i acc Hi. unfold scan_step. rewrite (Hsame i Hi). reflexivity. }
  generalize (l, h, false).
  assert (Hall : Forall (λ i, (i < numSensors)%nat) (seq 0 numSensors))
    by (apply Forall_forall; intros i Hi; apply elem_of_seq in Hi; lia).
  induction Hall as [|i rest Hi _ IH]; intros acc; [reflexivity|].
  cbn [fold_left]. rewrite (Hstep i acc Hi). apply IH.
Qed.

Lemma in_sensorPins i : (i < numSensors)%nat → In (nth i sensorPins 0) sensorPins.
Proof.
  unfold numSensors. intros Hi.
  do 6 (destruct i as [|i]; [cbn; tauto|]). lia.
Qed.

Lemma total_delay_app ev1 ev2 :
  total_delay (ev1 ++ ev2) = total_delay ev1 + total_delay ev2.
Proof.
  unfold total_delay. induction ev1 as [|e ev1 IH]; [reflexivity|].
  cbn [app foldr]. rewrite IH. destruct e; lia.
Qed.

Section MoreFrameProofs.

Variable hsv2rgb_rainbow : CHSV → CRGB.

(** The calls and the new state of a frame that completes, from any state. *)
Lemma loop_events rd st st' evs :
  loop hsv2rgb_rainbow rd st = Some (st', evs) →
  evs = (if rising rd st then [PlayTrack 1] else [])
        ++ [SetBrightness (to_u8 (brightness st')); Show (leds st'); Delay 10]
  ∧ brightness st' = (if anySensor rd then 255 else fade (brightness st))
  ∧ (length st', hue st', wasOverSensor st') = scan rd (length st) (hue st).
Proof.
  unfold loop.
  pose proof (scan_flag rd (length st) (hue st)) as Hflag.
  destruct (scan rd (length st) (hue st)) as [[l1 h1] o].
  cbn [fst snd] in Hflag. subst o. cbv zeta. fold (rising rd st).
  destruct (drawLightbar _ l1 h1) as [ws|]; [|discriminate].
  cbn [mbind option_bind]. intros [= <- <-]. repeat split.
Qed.

Lemma reachable_bar st :
  reachable hsv2rgb_rainbow st →
  (length st = 1 ∧ hue st = 20)
  ∨ ∃ i, (i < numSensors)%nat
         ∧ length st = nth i lengths 0 ∧ hue st = nth i hues 0.
Proof.
  induction 1 as [|st rd st' evs Hreach IH Hloop].
  - left. split; reflexivity.
  - destruct (loop_events _ _ _ _ Hloop) as (_ & _ & Hscan).
    destruct (scan_selects rd (length st) (hue st))
      as [Hkeep|(i & Hi & Hsel)].
    + rewrite Hkeep in Hscan. injection Hscan as -> -> _. exact IH.
    + rewrite Hsel in Hscan. injection Hscan as Hl Hh _.
      right. exists i. split; [exact Hi|]. split; assumption.
Qed.

Lemma reachable_bar_bounds st :
  reachable hsv2rgb_rainbow st → 1 ≤ length st ≤ 7 ∧ 0 ≤ hue st ≤ 160.
Proof.
  intros Hreach.
  destruct (reachable_bar st Hreach) as [[-> ->]|(i & Hi & -> & ->)]; [lia|].
  unfold numSensors in Hi.
  do 6 (destruct i as [|i]; [cbn; lia|]). lia.
Qed.

End MoreFrameProofs.

(** X5: on brightness values from 0 to 255, [brightness *= 0.8f] followed
    by the clamp is exactly floor(4 * brightness / 5): the binary32 rounding
    never shows, and the branch [brightness < 0] is never taken. *)
Theorem fade_is_four_fifths b :
  0 ≤ b ≤ 255 →
  fade b = b * 4 / 5
  ∧ (wrap16 (mul_0_8f b) <? 0) = false
  ∧ 0 ≤ fade b ≤ b.
Proof.
  intros Hb. pose proof (fade_step_bounds b (proj1 Hb)) as Hf.
  split; [exact (fade_exact b Hb)|]. split.
  - rewrite mul_0_8f_exact by exact Hb.
    rewrite wrap16_id by (unfold INT_MIN, INT_MAX; lia).
    apply Z.ltb_ge. lia.
  - rewrite fade_exact by exact Hb. exact Hf.
Qed.

Section MoreClaims.

Variable hsv2rgb_rainbow : CHSV → CRGB.

(** X6: a frame started from a reachable state makes these calls, in this
    order: playTrack(1) if it is a rising edge, then setBrightness with the
    new brightness, which lies in 0..255 and so passes through uint8_t
    unchanged, then show with the new pixel array, then delay(10). *)
Theorem frame_calls rd st :
  reachable hsv2rgb_rainbow st →
  ∃ st' evs,
    loop hsv2rgb_rainbow rd st = Some (st', evs)
    ∧ evs = (if rising rd st then [PlayTrack 1] else [])
            ++ [SetBrightness (brightness st'); Show (leds st'); Delay 10]
    ∧ 0 ≤ brightness st' ≤ 255.
Proof.
  intros Hreach. pose proof (reachable_ready _ _ Hreach) as [Hst _].
  destruct (loop_fields hsv2rgb_rainbow rd st Hst)
    as (st' & px & Heq & _).
  assert (Hb : 0 ≤ brightness st' ≤ 255).
  { apply (reachable_ready hsv2rgb_rainbow).
    exact (reachable_frame _ _ _ _ _ Hreach Heq). }
  destruct (loop_events hsv2rgb_rainbow _ _ _ _ Heq) as (Hev & _).
  rewrite Hev, to_u8_id in Heq by exact Hb.
  exists st'. eexists. split; [exact Heq|]. split; [reflexivity|exact Hb].
Qed.

(** X7: in every reachable state length and hue are the power-on pair
    (1, 20) or the pair of one sensor, lengths[i] and hues[i]; so
    1 <= length <= 7 < NUM_LEDS and 0 <= hue <= 160. *)
Theorem bar_parameters_invariant st :
  reachable hsv2rgb_rainbow st →
  ((length st = 1 ∧ hue st = 20)
   ∨ ∃ i, (i < numSensors)%nat
          ∧ length st = nth i lengths 0 ∧ hue st = nth i hues 0)
  ∧ 1 ≤ length st ≤ 7 ∧ 0 ≤ hue st ≤ 160.
Proof.
  intros Hreach.
  split; [exact (reachable_bar _ st Hreach)|].
  exact (reachable_bar_bounds _ st Hreach).
Qed.

(** X8: after a frame started from a reachable state the pixel array has
    NUM_LEDS pixels; with p the position drawn (0 on a rising edge, else the
    position the frame started with), the pixel of slot k holds black plus
    the conversion of CHSV(hue, 255, brightness of slot k) for the new hue
    and length, and every other pixel is black. *)
Theorem frame_pixels rd st :
  reachable hsv2rgb_rainbow st →
  ∃ st' evs,
    loop hsv2rgb_rainbow rd st = Some (st', evs)
    ∧ List.length (leds st') = Z.to_nat NUM_LEDS
    ∧ (∀ k, 0 ≤ k ≤ length st' →
         leds st'
           !! Z.to_nat (((if rising rd st then 0 else pos16 st) / 16 + k)
                        mod NUM_LEDS)
         = Some (crgb_add black
                   (hsv2rgb_rainbow
                      (mkCHSV (hue st') 255
                         (slot_bright (if rising rd st then 0 else pos16 st)
                            (length st') k)))))
    ∧ (∀ j, (j < Z.to_nat NUM_LEDS)%nat →
         (∀ k, 0 ≤ k ≤ length st' →
            j ≠ Z.to_nat (((if rising rd st then 0 else pos16 st) / 16 + k)
                          mod NUM_LEDS)) →
         leds st' !! j = Some black).
Proof.
  intros Hreach. pose proof (reachable_ready _ _ Hreach) as [Hst _].
  destruct (loop_fields hsv2rgb_rainbow rd st Hst)
    as (st' & px & Heq & _).
  pose proof (reachable_frame _ _ _ _ _ Hreach Heq) as Hreach'.
  destruct (reachable_bar_bounds _ st' Hreach') as [Hlen Hhue].
  destruct (loop_draws hsv2rgb_rainbow _ _ _ _ Heq) as (ws & Hdraw & Hleds).
  set (p := if rising rd st then 0 else pos16 st) in *.
  assert (Hp : 0 ≤ p < NUM_LEDS * 16).
  { subst p. destruct (rising rd st); [unfold NUM_LEDS; lia|exact (proj1 Hst)]. }
  rewrite drawLightbar_slots in Hdraw by (unfold INT_MAX; lia).
  injection Hdraw as <-.
  exists st'. eexists. split; [exact Heq|]. rewrite Hleds.
  pose proof (painted_bar hsv2rgb_rainbow p (length st') (hue st')
                ltac:(unfold NUM_LEDS; lia)) as Hbar.
  rewrite (to_u8_id (hue st')) in Hbar by lia. exact Hbar.
Qed.

(** X9: over frames without a rising edge, started with pos16 on the strip,
    pos16 advances by one per frame modulo NUM_LEDS * 16 and playTrack is
    never called. *)
Theorem steady_run_advances rds : ∀ st,
  frame_ready st →
  rising_edges (wasOverSensor st) (anySensor <$> rds) = 0%nat →
  ∃ st' evs,
    run hsv2rgb_rainbow rds st = Some (st', evs)
    ∧ pos16 st'
      = (pos16 st + Z.of_nat (List.length rds)) mod (NUM_LEDS * 16)
    ∧ playTrack_calls evs = 0%nat.
Proof.
  induction rds as [|rd rds IH]; intros st Hst Hedges.
  - exists st, []. split; [reflexivity|]. split; [|reflexivity].
    cbn. rewrite Z.add_0_r. symmetry. apply Z.mod_small. exact (proj1 Hst).
  - cbn [fmap list_fmap rising_edges] in Hedges.
    assert (Hrise : rising rd st = false).
    { unfold rising. destruct (anySensor rd && negb (wasOverSensor st));
        [discriminate Hedges|reflexivity]. }
    fold (rising rd st) in Hedges. rewrite Hrise in Hedges.
    destruct (loop_fields hsv2rgb_rainbow rd st Hst)
      as (st1 & px & Heq & Hpos & _ & _ & _ & Hst1).
    destruct (loop_some hsv2rgb_rainbow _ _ _ _ Heq) as [Hfilter Hwas].
    rewrite Hrise in Hpos, Hfilter, Heq.
    destruct (IH st1 Hst1) as (st' & ev' & Hrun & Hpos' & Hplay');
      [rewrite Hwas; exact Hedges|].
    cbn [run]. rewrite Heq. cbn [mbind option_bind].
    rewrite Hrun. cbn [mbind option_bind].
    eexists _, _. split; [reflexivity|]. split.
    + rewrite Hpos', Hpos, Z.add_mod_idemp_l by (unfold NUM_LEDS; lia).
      f_equal. cbn [List.length]. lia.
    + rewrite playTrack_calls_app, Hplay'.
      unfold playTrack_calls. rewrite Hfilter. reflexivity.
Qed.

(** X10: a frame depends on the pin levels only through whether each of the
    six sensor pins reads LOW. *)
Theorem loop_reads_sensor_pins rd rd' st :
  (∀ i, (i < numSensors)%nat →
        (rd (nth i sensorPins 0) =? LOW) = (rd' (nth i sensorPins 0) =? LOW)) →
  loop hsv2rgb_rainbow rd st = loop hsv2rgb_rainbow rd' st.
Proof.
  intros Hsame. unfold loop.
  rewrite (scan_ext rd rd' _ _ Hsame). reflexivity.
Qed.

(** X11: setup puts pins in a mode only through pinMode(pin, INPUT_PULLUP)
    on sensor pins, and the pins it configures are all that a frame depends
    on: two readings that agree on them give the same frame. *)
Theorem setup_configures_pins_read banner ledDataPin :
  (∀ pin mode,
     In (PinMode pin mode) (setup banner ledDataPin) →
     mode = INPUT_PULLUP ∧ In pin sensorPins)
  ∧ (∀ rd rd' st,
       (∀ pin, In (PinMode pin INPUT_PULLUP) (setup banner ledDataPin) →
               rd pin = rd' pin) →
       loop hsv2rgb_rainbow rd st = loop hsv2rgb_rainbow rd' st).
Proof.
  split.
  - intros pin mode Hin. cbn in Hin.
    repeat (destruct Hin as [Hin|Hin]; [try discriminate Hin|]);
      try contradiction;
      injection Hin as <- <-; (split; [reflexivity|cbn; tauto]).
  - intros rd rd' st Hsame. unfold loop.
    rewrite (scan_ext rd rd'); [reflexivity|].
    intros i Hi. rewrite Hsame; [reflexivity|].
    unfold setup. apply in_or_app. right. apply in_or_app. left.
    apply (in_map (λ i, PinMode (nth i sensorPins 0) INPUT_PULLUP)).
    apply in_seq. lia.
Qed.

(** X12: a completed run of n frames calls show n times and setBrightness
    n times, and its delay calls add up to 10 * n milliseconds. *)
Theorem run_call_counts rds : ∀ st st' evs,
  run hsv2rgb_rainbow rds st = Some (st', evs) →
  List.length (List.filter is_show evs) = List.length rds
  ∧ List.length (setBrightness_args evs) = List.length rds
  ∧ total_delay evs = 10 * Z.of_nat (List.length rds).
Proof.
  induction rds as [|rd rds IH]; intros st st' evs; cbn [run].
  - intros [= <- <-]. repeat split.
  - destruct (loop hsv2rgb_rainbow rd st) as [[st1 ev1]|] eqn:Hloop;
      [|discriminate]. cbn [mbind option_bind].
    destruct (run hsv2rgb_rainbow rds st1) as [[st2 ev2]|] eqn:Hrun;
      [|discriminate]. cbn [mbind option_bind].
    intros [= <- <-].
    destruct (IH _ _ _ Hrun) as (Hshow & Hset & Hdelay).
    destruct (loop_events hsv2rgb_rainbow _ _ _ _ Hloop) as (-> & _).
    unfold setBrightness_args in *.
    rewrite List.filter_app, flat_map_app, !length_app, total_delay_app.
    rewrite Hshow, Hset, Hdelay. cbn [List.length].
    destruct (rising rd st); cbn; repeat split; lia.
Qed.

(** X13: over frames with no sensor asserted, started with brightness b in
    0..255, the arguments of the setBrightness calls are, in order,
    f(b), f(f(b)), ... for f(x) = floor(4 * x / 5). *)
Theorem idle_fade_trace rds : ∀ st,
  frame_ready st → 0 ≤ brightness st ≤ 255 →
  Forall (λ rd, anySensor rd = false) rds →
  ∃ st' evs,
    run hsv2rgb_rainbow rds st = Some (st', evs)
    ∧ setBrightness_args evs
      = (λ k, Nat.iter (S k) fade_step (brightness st))
        <$> seq 0 (List.length rds).
Proof.
  induction rds as [|rd rds IH]; intros st Hst Hb Hidle.
  - exists st, []. split; reflexivity.
  - apply Forall_cons in Hidle as [Hrd Hidle].
    destruct (loop_fields hsv2rgb_rainbow rd st Hst)
      as (st1 & px & Heq & _ & _ & _ & Hb1 & Hst1).
    rewrite Hrd, fade_exact in Hb1 by exact Hb.
    pose proof (fade_step_bounds _ (proj1 Hb)) as Hf.
    destruct (IH st1 Hst1 ltac:(lia) Hidle) as (st' & ev' & Hrun & Htrace).
    cbn [run]. rewrite Heq. cbn [mbind option_bind].
    rewrite Hrun. cbn [mbind option_bind].
    eexists _, _. split; [reflexivity|].
    unfold setBrightness_args in *. rewrite flat_map_app, Htrace.
    unfold rising. rewrite Hrd. cbn [andb app flat_map List.length seq].
    rewrite fmap_cons, <- fmap_S_seq, <- list_fmap_compose.
    rewrite to_u8_id by lia. rewrite Hb1. f_equal.
    apply list_fmap_ext. intros i k _. cbn [compose].
    rewrite (Nat.iter_succ_r (S k)). reflexivity.
Qed.

End MoreClaims.

(** * The further properties at concrete inputs *)

(** One position past the end of the strip. *)
Lemma lightbar_in_bounds_iff_witness :
  0 ≤ 2 < INT_MAX ∧
  (is_Some (drawLightbar 192 2 0) ↔ -16 < 192 < NUM_LEDS * 16).
Proof.
  split; [unfold INT_MAX; lia|].
  apply (lightbar_in_bounds_iff 192 2 0). unfold INT_MAX. lia.
Defined.

Lemma lightbar_short_lengths_witness :
  -3 < 0 ∧ 0 ≤ 37 < NUM_LEDS * 16 ∧
  drawLightbar 37 (-3) 90 = Some []
  ∧ drawLightbar 37 0 90
    = Some [(37 / 16, mkCHSV (to_u8 90) 255 (255 - (37 mod 16) * 16))].
Proof.
  destruct (lightbar_short_lengths 37 90) as [Hneg Hzero].
  split; [lia|]. split; [unfold NUM_LEDS; lia|].
  split; [apply Hneg; lia|apply Hzero; unfold NUM_LEDS; lia].
Defined.

(** A bar as long as the strip. *)
Lemma lightbar_pixels_distinct_iff_witness :
  0 ≤ 191 < NUM_LEDS * 16 ∧ 12 < INT_MAX ∧
  ∃ ws,
    drawLightbar 191 12 0 = Some ws
    ∧ (NoDup ws.*1 ↔ 12 < NUM_LEDS).
Proof.
  split; [unfold NUM_LEDS; lia|]. split; [unfold INT_MAX; lia|].
  apply (lightbar_pixels_distinct_iff 191 12 0);
    [unfold NUM_LEDS; lia|unfold INT_MAX; lia].
Defined.

Lemma cleared_strip_shows_bar_witness :
  0 ≤ 191 < NUM_LEDS * 16 ∧ 0 ≤ 2 < NUM_LEDS ∧
  ∃ ws,
    drawLightbar 191 2 20 = Some ws
    ∧ List.length (paint hsv2rgb_grey ws cleared) = Z.to_nat NUM_LEDS
    ∧ (∀ k, 0 ≤ k ≤ 2 →
         paint hsv2rgb_grey ws cleared
           !! Z.to_nat ((191 / 16 + k) mod NUM_LEDS)
         = Some (crgb_add black
                   (hsv2rgb_grey (mkCHSV (to_u8 20) 255
                                    (slot_bright 191 2 k)))))
    ∧ (∀ j, (j < Z.to_nat NUM_LEDS)%nat →
         (∀ k, 0 ≤ k ≤ 2 → j ≠ Z.to_nat ((191 / 16 + k) mod NUM_LEDS)) →
         paint hsv2rgb_grey ws cleared !! j = Some black).
Proof.
  split; [unfold NUM_LEDS; lia|]. split; [unfold NUM_LEDS; lia|].
  apply (cleared_strip_shows_bar hsv2rgb_grey 191 2 20); unfold NUM_LEDS; lia.
Defined.

Lemma fade_is_four_fifths_witness :
  0 ≤ 66 ≤ 255 ∧
  fade 66 = 66 * 4 / 5 ∧ (wrap16 (mul_0_8f 66) <? 0) = false
  ∧ 0 ≤ fade 66 ≤ 66.
Proof. split; [lia|]. apply (fade_is_four_fifths 66). lia. Defined.

Lemma frame_calls_witness :
  reachable hsv2rgb_grey lit ∧
  ∃ st' evs,
    loop hsv2rgb_grey released lit = Some (st', evs)
    ∧ evs = (if rising released lit then [PlayTrack 1] else [])
            ++ [SetBrightness (brightness st'); Show (leds st'); Delay 10]
    ∧ 0 ≤ brightness st' ≤ 255.
Proof.
  split; [exact reachable_lit|].
  apply (frame_calls hsv2rgb_grey released lit). exact reachable_lit.
Defined.

Lemma bar_parameters_invariant_witness :
  reachable hsv2rgb_grey lit ∧
  ((length lit = 1 ∧ hue lit = 20)
   ∨ ∃ i, (i < numSensors)%nat
          ∧ length lit = nth i lengths 0 ∧ hue lit = nth i hues 0)
  ∧ 1 ≤ length lit ≤ 7 ∧ 0 ≤ hue lit ≤ 160.
Proof.
  split; [exact reachable_lit|].
  apply (bar_parameters_invariant hsv2rgb_grey lit). exact reachable_lit.
Defined.

Lemma frame_pixels_witness :
  reachable hsv2rgb_grey lit ∧
  ∃ st' evs,
    loop hsv2rgb_grey (pressed 3) lit = Some (st', evs)
    ∧ List.length (leds st') = Z.to_nat NUM_LEDS.
Proof.
  split; [exact reachable_lit|].
  destruct (frame_pixels hsv2rgb_grey (pressed 3) lit reachable_lit)
    as (st' & evs & Heq & Hlen & _).
  exists st', evs. split; [exact Heq|exact Hlen].
Defined.

(** Sensor 3 held for 16 more frames: the bar moves by one pixel. *)
Lemma steady_run_advances_witness :
  frame_ready lit ∧
  rising_edges (wasOverSensor lit) (anySensor <$> replicate 16 (pressed 3))
  = 0%nat ∧
  ∃ st' evs,
    run hsv2rgb_grey (replicate 16 (pressed 3)) lit = Some (st', evs)
    ∧ pos16 st' = (pos16 lit + 16) mod (NUM_LEDS * 16)
    ∧ playTrack_calls evs = 0%nat.
Proof.
  split; [exact frame_ready_lit|]. split; [reflexivity|].
  apply (steady_run_advances hsv2rgb_grey (replicate 16 (pressed 3)) lit);
    [exact frame_ready_lit|reflexivity].
Defined.

(** Two readings with different levels on pins that are not LOW. *)
Lemma loop_reads_sensor_pins_witness :
  (∀ i, (i < numSensors)%nat →
        (pressed 3 (nth i sensorPins 0) =? LOW)
        = ((λ pin, if pin =? 5 then 0 else pin) (nth i sensorPins 0) =? LOW))
  ∧ loop hsv2rgb_grey (pressed 3) lit
    = loop hsv2rgb_grey (λ pin, if pin =? 5 then 0 else pin) lit.
Proof.
  assert (Hsame : ∀ i, (i < numSensors)%nat →
            (pressed 3 (nth i sensorPins 0) =? LOW)
            = ((λ pin, if pin =? 5 then 0 else pin) (nth i sensorPins 0)
               =? LOW)).
  { unfold numSensors. intros i Hi.
    do 6 (destruct i as [|i]; [reflexivity|]). lia. }
  split; [exact Hsame|].
  apply (loop_reads_sensor_pins hsv2rgb_grey). exact Hsame.
Defined.

Lemma setup_configures_pins_read_witness :
  In (PinMode 5 INPUT_PULLUP) (setup "WPLSwordPuzzle" 19) ∧
  INPUT_PULLUP = INPUT_PULLUP ∧ In 5 sensorPins.
Proof.
  assert (Hin : In (PinMode 5 INPUT_PULLUP) (setup "WPLSwordPuzzle" 19))
    by (cbn; tauto).
  split; [exact Hin|].
  exact (proj1 (setup_configures_pins_read hsv2rgb_grey "WPLSwordPuzzle" 19)
           5 INPUT_PULLUP Hin).
Defined.

Lemma run_call_counts_witness :
  ∃ st' evs,
    run hsv2rgb_grey [released; pressed 3; released] initial = Some (st', evs)
    ∧ List.length (List.filter is_show evs) = 3%nat
    ∧ List.length (setBrightness_args evs) = 3%nat
    ∧ total_delay evs = 10 * 3.
Proof.
  destruct (run hsv2rgb_grey [released; pressed 3; released] initial)
    as [[st' evs]|] eqn:Hrun; [|vm_compute in Hrun; discriminate Hrun].
  exists st', evs. split; [reflexivity|].
  exact (run_call_counts hsv2rgb_grey _ _ _ _ Hrun).
Defined.

(** The fade after full brightness. *)
Lemma idle_fade_trace_witness :
  frame_ready lit ∧ 0 ≤ brightness lit ≤ 255 ∧
  Forall (λ rd, anySensor rd = false) (replicate 7 released) ∧
  ∃ st' evs,
    run hsv2rgb_grey (replicate 7 released) lit = Some (st', evs)
    ∧ setBrightness_args evs = [204; 163; 130; 104; 83; 66; 52].
Proof.
  assert (Hb : 0 ≤ brightness lit ≤ 255) by (cbn; lia).
  split; [exact frame_ready_lit|]. split; [exact Hb|].
  split; [exact (released_idle 7)|].
  destruct (idle_fade_trace hsv2rgb_grey (replicate 7 released) lit
              frame_ready_lit Hb (released_idle 7))
    as (st' & evs & Heq & Htrace).
  exists st', evs. split; [exact Heq|]. rewrite Htrace. reflexivity.
Defined.
